(** * The serf RPC client ([client/rpc_client.go]): a shallow embedding

    The client multiplexes one-shot calls and streaming subscriptions over a
    single connection.  The embedding keeps the client record, the handler
    objects and the channels in an explicit store, runs every function of the
    source as a computation over that store, and records the lock operations,
    map operations, handler invocations and log lines of a run in a trace. *)

From Stdlib Require Import Ascii String.
From stdpp Require Import base decidable option numbers strings list gmap.

Local Open Scope string_scope.
Local Open Scope list_scope.
Local Open Scope Z_scope.

(** ** Go's [fmt] with an empty operand list

    [strToError] hands the agent's error string to [fmt.Errorf] as the
    FORMAT, with no operands.  The message of the resulting error is what
    [fmt.Sprintf(format)] prints; [Sprintf] below follows [doPrintf] of Go's
    [fmt] package in the case [len(a) = 0]. *)
Module fmt.

Definition byte_in (lo hi : N) (c : ascii) : bool :=
  (lo <=? N_of_ascii c)%N && (N_of_ascii c <=? hi)%N.

Definition is_byte (c d : ascii) : bool := (N_of_ascii c =? N_of_ascii d)%N.

Definition is_flag (c : ascii) : bool :=
  is_byte c "#" || is_byte c "0" || is_byte c "+" || is_byte c "-" || is_byte c " ".

Definition is_digit (c : ascii) : bool := byte_in 48 57 c.

Definition starts_with (c : ascii) (s : string) : bool :=
  match s with String d _ => is_byte c d | EmptyString => false end.

Definition tail (s : string) : string :=
  match s with String _ r => r | EmptyString => EmptyString end.

(** The [simpleFormat] loop: with no operand the fast path for a verb is
    never taken, so the loop only steps over flag bytes. *)
Fixpoint skip_flags (s : string) : string :=
  match s with
  | String c r => if is_flag c then skip_flags r else s
  | EmptyString => s
  end.

Definition tooLarge (x : Z) : bool := (1000000 <? x) || (x <? -1000000).

(** [parsenum]: the digits at the front of [s]; on overflow the index jumps
    to the end of the segment. *)
Fixpoint parsenum_from (s : string) (num : Z) (isnum : bool) : Z * bool * string :=
  match s with
  | String c r =>
      if is_digit c then
        if tooLarge num then (0, false, EmptyString)
        else parsenum_from r (num * 10 + (Z.of_N (N_of_ascii c) - 48)) true
      else (num, isnum, s)
  | EmptyString => (num, isnum, s)
  end.

Definition parsenum (s : string) : Z * bool * string := parsenum_from s 0 false.

(** Splits [s] at its first closing bracket. *)
Fixpoint to_bracket (s : string) : option (string * string) :=
  match s with
  | String c r =>
      if is_byte c "]" then Some (EmptyString, r)
      else match to_bracket r with
           | Some (seg, rest) => Some (String c seg, rest)
           | None => None
           end
  | EmptyString => None
  end.

(** [parseArgNumber] on a format that starts with an opening bracket:
    the rest of the format after the index, and whether the index parsed. *)
Definition parseArgNumber (s : string) : string * bool :=
  if (String.length s <? 3)%nat then (tail s, false)
  else match to_bracket (tail s) with
       | Some (seg, rest) =>
           match parsenum seg with
           | (_, ok, over) => (rest, ok && bool_decide (over = EmptyString))
           end
       | None => (tail s, false)
       end.

(** [argNumber] with [numArgs = 0]: returns the rest of the format, [found],
    and whether [goodArgNum] was cleared (no index is in range). *)
Definition argNumber (s : string) : string * bool * bool :=
  if starts_with "[" s then
    let '(rest, ok) := parseArgNumber s in (rest, ok, true)
  else (s, false, false).

(** [utf8.DecodeRuneInString] followed by [writeRune]: the bytes written for
    the verb and the rest of the format.  An invalid encoding is one byte
    wide and is written as U+FFFD. *)
Definition runeError : string :=
  String (ascii_of_N 239) (String (ascii_of_N 191) (String (ascii_of_N 189) EmptyString)).

Definition cont (c : ascii) : bool := byte_in 128 191 c.

Definition decode_verb (s : string) : string * string :=
  match s with
  | EmptyString => (EmptyString, EmptyString)
  | String c0 r0 =>
      if byte_in 0 127 c0 then (String c0 EmptyString, r0)
      else
        let bad := (runeError, r0) in
        match r0 with
        | EmptyString => bad
        | String c1 r1 =>
            if byte_in 194 223 c0 then
              if cont c1 then (String c0 (String c1 EmptyString), r1) else bad
            else
              let second_ok :=
                if is_byte c0 (ascii_of_N 224) then byte_in 160 191 c1
                else if is_byte c0 (ascii_of_N 237) then byte_in 128 159 c1
                else if byte_in 225 239 c0 then cont c1
                else if is_byte c0 (ascii_of_N 240) then byte_in 144 191 c1
                else if byte_in 241 243 c0 then cont c1
                else if is_byte c0 (ascii_of_N 244) then byte_in 128 143 c1
                else false in
              if negb second_ok then bad
              else
                match r1 with
                | EmptyString => bad
                | String c2 r2 =>
                    if negb (cont c2) then bad
                    else if byte_in 224 239 c0 then
                      (String c0 (String c1 (String c2 EmptyString)), r2)
                    else
                      match r2 with
                      | EmptyString => bad
                      | String c3 r3 =>
                          if cont c3 then
                            (String c0 (String c1 (String c2 (String c3 EmptyString))), r3)
                          else bad
                      end
                end
        end
  end.

(** One verb: [s] is the format just after a percent sign.  Returns the text
    written and the rest of the format ([None] when the format ended and the
    loop breaks). *)
Definition verb (s : string) : string * option string :=
  let s := skip_flags s in
  let '(s, afterIndex, bad0) := argNumber s in
  (* width *)
  let '(s, afterIndex, bad1, out1) :=
    if starts_with "*" s then (tail s, false, false, "%!(BADWIDTH)")
    else let '(_, present, s') := parsenum s in
         (s', afterIndex, afterIndex && present, EmptyString) in
  (* precision *)
  let '(s, afterIndex, bad2, out2) :=
    if starts_with "." s then
      let bad := afterIndex in
      let '(s', afterIndex', bad') := argNumber (tail s) in
      if starts_with "*" s' then (tail s', false, bad || bad', "%!(BADPREC)")
      else let '(_, _, s'') := parsenum s' in (s'', afterIndex', bad || bad', EmptyString)
    else (s, afterIndex, false, EmptyString) in
  let '(s, bad3) :=
    if afterIndex then (s, false)
    else let '(s', _, bad') := argNumber s in (s', bad') in
  let out := out1 +:+ out2 in
  match s with
  | EmptyString => (out +:+ "%!(NOVERB)", None)
  | _ =>
      let '(v, rest) := decode_verb s in
      if bool_decide (v = "%") then (out +:+ "%", Some rest)
      else if bad0 || bad1 || bad2 || bad3 then (out +:+ "%!" +:+ v +:+ "(BADINDEX)", Some rest)
      else (out +:+ "%!" +:+ v +:+ "(MISSING)", Some rest)
  end.

(** The format loop: literal bytes are copied up to the next percent sign. *)
Fixpoint doPrintf (fuel : nat) (format : string) : string :=
  match fuel with
  | O => EmptyString
  | S fuel =>
      match format with
      | EmptyString => EmptyString
      | String c r =>
          if is_byte c "%" then
            match verb r with
            | (out, Some rest) => out +:+ doPrintf fuel rest
            | (out, None) => out
            end
          else String c (doPrintf fuel r)
      end
  end.

Definition Sprintf (format : string) : string :=
  doPrintf (S (String.length format)) format.

End fmt.

(** Go's [error] values, observed through their [Error()] message. *)
Record error := mkError { Error : string }.

#[global] Instance error_eq_dec : EqDecision error.
Proof. solve_decision. Defined.

Definition Errorf (format : string) : error := mkError (fmt.Sprintf format).

Definition clientClosed : error := Errorf "client closed".

(** [strToError] converts a string to an error if not blank. *)
Definition strToError (s : string) : option error :=
  if bool_decide (s ≠ "") then Some (Errorf s) else None.

(** ** Data of the protocol *)

(** Modelled from the spec: the command names of the wire protocol (the
    constants [handshakeCommand], [forceLeaveCommand], ... are declared
    outside [rpc_client.go]); section 6 of the specification lists them. *)
Inductive command :=
  | handshakeCommand | forceLeaveCommand | joinCommand | membersCommand
  | membersFilteredCommand | eventCommand | leaveCommand | tagsCommand
  | monitorCommand | streamCommand | stopCommand.

#[global] Instance command_eq_dec : EqDecision command.
Proof. solve_decision. Defined.

Record requestHeader := mkRequestHeader { Command : command; Seq : Z }.

#[global] Instance requestHeader_eq_dec : EqDecision requestHeader.
Proof. solve_decision. Defined.

Record responseHeader := mkResponseHeader { RSeq : Z; RError : string }.

(** Modelled from the spec: the payload records, plain data carriers whose
    declarations are outside [rpc_client.go]; a member is kept as its name. *)
Definition Member := string.

Inductive request :=
  | handshakeRequest (Version : Z)
  | forceLeaveRequest (Node : string)
  | joinRequest (Existing : list string) (Replay : bool)
  | membersRequest (Tags : list (string * string)) (Status : string)
  | eventRequest (Name : string) (Payload : list ascii) (Coalesce : bool)
  | tagsRequest (Tags : list (string * string)) (DeleteTags : list string)
  | monitorRequest (LogLevel : string)
  | streamRequest (Type_ : string)
  | stopRequest (Stop : Z).

(** A response destination ([resp interface{}] of [genericRPC]). *)
Inductive payload :=
  | joinResponse (Num : Z)
  | membersResponse (Members : list Member).

(** A streamed event record, [map[string]interface{}]. *)
Definition record := list (string * string).

(** What the decoder reads: the records the agent sends, in order.  A
    [Decode] into a Go value succeeds on a record of the matching shape and
    fails on anything else, and at the end of the input. *)
Inductive wire_item :=
  | WHeader (h : responseHeader)
  | WLog (Log : string)
  | WRecord (rec : record)
  | WPayload (p : payload)
  | WMalformed (why : string).

(** What the encoder writes. *)
Inductive wire_out :=
  | OHeader (h : requestHeader)
  | OBody (r : request).

(** ** Channels

    A Go channel: its buffer, its capacity, the number of receivers parked on
    it, whether it is closed, and (as a history) every value it accepted. *)
Inductive value :=
  | VErr (e : option error)
  | VLog (l : string)
  | VRecord (r : record).

Record chan := mkChan {
  buf : list value;
  cap : nat;
  recvq : nat;
  closed : bool;
  sent : list value
}.

Definition make (n : nat) : chan := mkChan [] n 0 false [].

(** A send can proceed when a receiver is parked or the buffer has room. *)
Definition can_send (c : chan) : bool :=
  (0 <? recvq c)%nat || (length (buf c) <? cap c)%nat.

Definition push (v : value) (c : chan) : chan :=
  if (0 <? recvq c)%nat
  then mkChan (buf c) (cap c) (pred (recvq c)) (closed c) (sent c ++ [v])
  else mkChan (buf c ++ [v]) (cap c) (recvq c) (closed c) (sent c ++ [v]).

Definition close_chan (c : chan) : chan :=
  mkChan (buf c) (cap c) 0 true (sent c).

(** ** The store *)

Definition loc := positive.

(** The three implementations of the [seqHandler] interface, as objects of
    the store: [seqCallback] with what its closure captures (the completion
    channel and the response destination), [monitorHandler] and
    [streamHandler] with their fields. *)
Inductive seqHandler :=
  | seqCallback (errCh : loc) (resp : option loc)
  | monitorHandler (mclosed minit : bool) (initCh logCh : loc) (mseq : Z)
  | streamHandler (sclosed sinit : bool) (initCh eventCh : loc) (sseq : Z).

Inductive event :=
  | Lock | Unlock
  | MapGet (seq : Z) | MapSet (seq : Z) | MapDelete (seq : Z) | MapRange | MapNew
  | CallHandle (h : loc) | CallCleanup (h : loc)
  | Flushed (h : requestHeader)
  | DecodeFail (err : error)
  | Log (msg : string).

#[global] Instance event_eq_dec : EqDecision event.
Proof. solve_decision. Defined.

(** The client and its world.  [seq] .. [conn] are the fields of
    [RPCClient] ([shutdownCh] and [conn] hold whether the channel and the
    connection are closed, [dispatchLock] whether the mutex is held);
    [dec] is the decoder's input, [wbuf] the buffered writer, [wire] what
    reached the connection, [werr] the writer's sticky error and [netdown]
    the error a write to the connection fails with; [handlers], [chans] and
    [cells] are the heap; [listening] says that the goroutine of [listen] is
    in its loop; [trace] records what happened. *)
Record state := mkState {
  seq : Z;
  dispatch : gmap Z loc;
  dispatchLock : bool;
  shutdown : bool;
  shutdownCh : bool;
  conn : bool;
  dec : list wire_item;
  wbuf : list wire_out;
  wire : list wire_out;
  werr : option error;
  netdown : option error;
  handlers : gmap loc seqHandler;
  chans : gmap loc chan;
  cells : gmap loc payload;
  next : loc;
  listening : bool;
  trace : list event
}.

Definition set_seq (x : Z) (s : state) : state :=
  mkState x (dispatch s) (dispatchLock s) (shutdown s) (shutdownCh s) (conn s) (dec s)
    (wbuf s) (wire s) (werr s) (netdown s) (handlers s) (chans s) (cells s) (next s)
    (listening s) (trace s).

Definition set_dispatch (x : gmap Z loc) (s : state) : state :=
  mkState (seq s) x (dispatchLock s) (shutdown s) (shutdownCh s) (conn s) (dec s) (wbuf
    s) (wire s) (werr s) (netdown s) (handlers s) (chans s) (cells s) (next s)
    (listening s) (trace s).

Definition set_dispatchLock (x : bool) (s : state) : state :=
  mkState (seq s) (dispatch s) x (shutdown s) (shutdownCh s) (conn s) (dec s) (wbuf s)
    (wire s) (werr s) (netdown s) (handlers s) (chans s) (cells s) (next s) (listening
    s) (trace s).

Definition set_shutdown (x : bool) (s : state) : state :=
  mkState (seq s) (dispatch s) (dispatchLock s) x (shutdownCh s) (conn s) (dec s) (wbuf
    s) (wire s) (werr s) (netdown s) (handlers s) (chans s) (cells s) (next s)
    (listening s) (trace s).

Definition set_shutdownCh (x : bool) (s : state) : state :=
  mkState (seq s) (dispatch s) (dispatchLock s) (shutdown s) x (conn s) (dec s) (wbuf s)
    (wire s) (werr s) (netdown s) (handlers s) (chans s) (cells s) (next s) (listening
    s) (trace s).

Definition set_conn (x : bool) (s : state) : state :=
  mkState (seq s) (dispatch s) (dispatchLock s) (shutdown s) (shutdownCh s) x (dec s)
    (wbuf s) (wire s) (werr s) (netdown s) (handlers s) (chans s) (cells s) (next s)
    (listening s) (trace s).

Definition set_dec (x : list wire_item) (s : state) : state :=
  mkState (seq s) (dispatch s) (dispatchLock s) (shutdown s) (shutdownCh s) (conn s) x
    (wbuf s) (wire s) (werr s) (netdown s) (handlers s) (chans s) (cells s) (next s)
    (listening s) (trace s).

Definition set_wbuf (x : list wire_out) (s : state) : state :=
  mkState (seq s) (dispatch s) (dispatchLock s) (shutdown s) (shutdownCh s) (conn s)
    (dec s) x (wire s) (werr s) (netdown s) (handlers s) (chans s) (cells s) (next s)
    (listening s) (trace s).

Definition set_wire (x : list wire_out) (s : state) : state :=
  mkState (seq s) (dispatch s) (dispatchLock s) (shutdown s) (shutdownCh s) (conn s)
    (dec s) (wbuf s) x (werr s) (netdown s) (handlers s) (chans s) (cells s) (next s)
    (listening s) (trace s).

Definition set_werr (x : option error) (s : state) : state :=
  mkState (seq s) (dispatch s) (dispatchLock s) (shutdown s) (shutdownCh s) (conn s)
    (dec s) (wbuf s) (wire s) x (netdown s) (handlers s) (chans s) (cells s) (next s)
    (listening s) (trace s).

Definition set_netdown (x : option error) (s : state) : state :=
  mkState (seq s) (dispatch s) (dispatchLock s) (shutdown s) (shutdownCh s) (conn s)
    (dec s) (wbuf s) (wire s) (werr s) x (handlers s) (chans s) (cells s) (next s)
    (listening s) (trace s).

Definition set_handlers (x : gmap loc seqHandler) (s : state) : state :=
  mkState (seq s) (dispatch s) (dispatchLock s) (shutdown s) (shutdownCh s) (conn s)
    (dec s) (wbuf s) (wire s) (werr s) (netdown s) x (chans s) (cells s) (next s)
    (listening s) (trace s).

Definition set_chans (x : gmap loc chan) (s : state) : state :=
  mkState (seq s) (dispatch s) (dispatchLock s) (shutdown s) (shutdownCh s) (conn s)
    (dec s) (wbuf s) (wire s) (werr s) (netdown s) (handlers s) x (cells s) (next s)
    (listening s) (trace s).

Definition set_cells (x : gmap loc payload) (s : state) : state :=
  mkState (seq s) (dispatch s) (dispatchLock s) (shutdown s) (shutdownCh s) (conn s)
    (dec s) (wbuf s) (wire s) (werr s) (netdown s) (handlers s) (chans s) x (next s)
    (listening s) (trace s).

Definition set_next (x : loc) (s : state) : state :=
  mkState (seq s) (dispatch s) (dispatchLock s) (shutdown s) (shutdownCh s) (conn s)
    (dec s) (wbuf s) (wire s) (werr s) (netdown s) (handlers s) (chans s) (cells s) x
    (listening s) (trace s).

Definition set_listening (x : bool) (s : state) : state :=
  mkState (seq s) (dispatch s) (dispatchLock s) (shutdown s) (shutdownCh s) (conn s)
    (dec s) (wbuf s) (wire s) (werr s) (netdown s) (handlers s) (chans s) (cells s)
    (next s) x (trace s).

Definition set_trace (x : list event) (s : state) : state :=
  mkState (seq s) (dispatch s) (dispatchLock s) (shutdown s) (shutdownCh s) (conn s)
    (dec s) (wbuf s) (wire s) (werr s) (netdown s) (handlers s) (chans s) (cells s)
    (next s) (listening s) x.

(** ** Computations

    A function of the source runs to a value, to a panic, or to a point
    where its goroutine parks and nothing in the run wakes it. *)
Inductive result (A : Type) : Type :=
  | Ok (a : A) (s : state)
  | Panic (msg : string) (s : state)
  | Blocked (s : state).

Arguments Ok {A} a s.
Arguments Panic {A} msg s.
Arguments Blocked {A} s.

Definition M (A : Type) : Type := state → result A.

Definition ret {A} (a : A) : M A := λ s, Ok a s.

Definition bind {A B} (m : M A) (k : A → M B) : M B := λ s,
  match m s with
  | Ok a s' => k a s'
  | Panic msg s' => Panic msg s'
  | Blocked s' => Blocked s'
  end.

Declare Scope M_scope.
Notation "x ← m ; k" := (bind m (λ x, k))
  (at level 20, m at level 100, k at level 200, only parsing) : M_scope.
Notation "m ;; k" := (bind m (λ _, k))
  (at level 100, k at level 200, only parsing, right associativity) : M_scope.
Local Open Scope M_scope.

Definition final {A} (r : result A) : state :=
  match r with Ok _ s | Panic _ s | Blocked s => s end.

Definition gets {A} (f : state → A) : M A := λ s, Ok (f s) s.
Definition modify (f : state → state) : M unit := λ s, Ok tt (f s).
Definition panic {A} (msg : string) : M A := λ s, Panic msg s.
Definition park {A} : M A := λ s, Blocked s.
Definition emit (e : event) : M unit := modify (λ s, set_trace (trace s ++ [e]) s).
Definition when (b : bool) (m : M unit) : M unit := if b then m else ret tt.

Fixpoint for_each {A} (f : A → M unit) (l : list A) : M unit :=
  match l with
  | [] => ret tt
  | x :: l => f x;; for_each f l
  end.

(** *** Channel operations *)

(** [make(chan T, n)]. *)
Definition make_chan (n : nat) : M loc := λ s,
  Ok (next s) (set_next (Pos.succ (next s)) (set_chans (<[next s := make n]> (chans s)) s)).

(** [ch <- v]: panics on a closed channel, parks on a full one; a location
    that holds no channel is the nil channel. *)
Definition chan_send (ch : loc) (v : value) : M unit := λ s,
  match chans s !! ch with
  | None => Blocked s
  | Some c =>
      if closed c then Panic "send on closed channel" s
      else if can_send c then Ok tt (set_chans (<[ch := push v c]> (chans s)) s)
      else Blocked s
  end.

(** [select { case ch <- v: default: }]: whether the send was made. *)
Definition select_send (ch : loc) (v : value) : M bool := λ s,
  match chans s !! ch with
  | None => Ok false s
  | Some c =>
      if closed c then Panic "send on closed channel" s
      else if can_send c then Ok true (set_chans (<[ch := push v c]> (chans s)) s)
      else Ok false s
  end.

(** [close(ch)]. *)
Definition chan_close (ch : loc) : M unit := λ s,
  match chans s !! ch with
  | None => Panic "close of nil channel" s
  | Some c =>
      if closed c then Panic "close of closed channel" s
      else Ok tt (set_chans (<[ch := close_chan c]> (chans s)) s)
  end.

(** What a receive on [ch] would take now, if it can proceed. *)
Definition recv_ready (ch : loc) (s : state) : option value :=
  match chans s !! ch with
  | Some c =>
      match buf c with
      | v :: _ => Some v
      | [] => if closed c then Some (VErr None) else None
      end
  | None => None
  end.

Definition take (ch : loc) : M unit :=
  modify (λ s, match chans s !! ch with
               | Some c => set_chans (<[ch := mkChan (tail (buf c)) (cap c) (recvq c) (closed c) (sent c)]> (chans s)) s
               | None => s
               end).

(** The two-way wait of [genericRPC], [Monitor] and [Stream]:
    [select { case err := <-ch: ...; case <-c.shutdownCh: ... }].  When both
    cases can proceed Go picks one at random; [first] is that pick.  The
    result is [Some err] for the first case and [None] for the second. *)
Definition select_wait (ch : loc) (first : bool) : M (option (option error)) := λ s,
  match recv_ready ch s, shutdownCh s with
  | Some v, closed_too =>
      if closed_too && negb first then Ok None s
      else (take ch;; ret (Some (match v with VErr e => e | _ => None end))) s
  | None, true => Ok None s
  | None, false => Blocked s
  end.

(** *** The transport *)

Definition EOF : error := mkError "EOF".

Definition decode_error (it : wire_item) : error :=
  match it with
  | WMalformed why => mkError why
  | _ => mkError "msgpack: cannot decode into the destination"
  end.

(** [c.dec.Decode(&x)]: reads the next record of the input; [shape] says
    what [x] accepts.  A failed decode is recorded in the trace. *)
Definition Decode {A} (shape : wire_item → option A) : M (A + error) := λ s,
  match dec s with
  | [] => Ok (inr EOF) (set_trace (trace s ++ [DecodeFail EOF]) s)
  | it :: rest =>
      match shape it with
      | Some a => Ok (inl a) (set_dec rest s)
      | None =>
          Ok (inr (decode_error it))
             (set_trace (trace s ++ [DecodeFail (decode_error it)]) (set_dec rest s))
      end
  end.

Definition as_header (it : wire_item) : option responseHeader :=
  match it with WHeader h => Some h | _ => None end.

Definition as_log (it : wire_item) : option string :=
  match it with WLog l => Some l | _ => None end.

Definition as_record (it : wire_item) : option record :=
  match it with WRecord r => Some r | _ => None end.

(** A payload fits a destination of the same Go type. *)
Definition as_payload (dst : payload) (it : wire_item) : option payload :=
  match it, dst with
  | WPayload (joinResponse n), joinResponse _ => Some (joinResponse n)
  | WPayload (membersResponse ms), membersResponse _ => Some (membersResponse ms)
  | _, _ => None
  end.

(** [c.enc.Encode(x)] goes to the buffered writer, which keeps its first
    error; [c.writer.Flush()] hands the buffer to the connection. *)
Definition Encode (x : wire_out) : M (option error) := λ s,
  match werr s with
  | Some e => Ok (Some e) s
  | None => Ok None (set_wbuf (wbuf s ++ [x]) s)
  end.

Definition Flush : M (option error) := λ s,
  match werr s with
  | Some e => Ok (Some e) s
  | None =>
      match netdown s with
      | Some e => Ok (Some e) (set_werr (Some e) s)
      | None => Ok None (set_wbuf [] (set_wire (wire s ++ wbuf s) s))
      end
  end.

(** ** The functions of [rpc_client.go] *)

(** [getSeq]: [atomic.AddUint64(&c.seq, 1)], which wraps at 2^64. *)
Definition getSeq : M Z := λ s,
  let n := (seq s + 1) `mod` 2 ^ 64 in Ok n (set_seq n s).

(** [c.dispatchLock.Lock()] and [Unlock()]; the mutex is not reentrant. *)
Definition lock : M unit := λ s,
  if dispatchLock s then Blocked s
  else Ok tt (set_trace (trace s ++ [Lock]) (set_dispatchLock true s)).

Definition unlock : M unit := λ s,
  if dispatchLock s
  then Ok tt (set_trace (trace s ++ [Unlock]) (set_dispatchLock false s))
  else Panic "sync: unlock of unlocked mutex" s.

(** Handler objects are reached through pointers. *)
Definition load (h : loc) : M seqHandler := λ s,
  match handlers s !! h with
  | Some o => Ok o s
  | None => Panic "invalid memory address or nil pointer dereference" s
  end.

Definition new_handler (o : seqHandler) : M loc := λ s,
  Ok (next s) (set_next (Pos.succ (next s)) (set_handlers (<[next s := o]> (handlers s)) s)).

Definition new_cell (p : payload) : M loc := λ s,
  Ok (next s) (set_next (Pos.succ (next s)) (set_cells (<[next s := p]> (cells s)) s)).

(** [h.init = true] and [h.closed = true]. *)
Definition init_true (o : seqHandler) : seqHandler :=
  match o with
  | monitorHandler c _ i l q => monitorHandler c true i l q
  | streamHandler c _ i e q => streamHandler c true i e q
  | seqCallback _ _ => o
  end.

Definition closed_true (o : seqHandler) : seqHandler :=
  match o with
  | monitorHandler _ n i l q => monitorHandler true n i l q
  | streamHandler _ n i e q => streamHandler true n i e q
  | seqCallback _ _ => o
  end.

Definition set_init (h : loc) : M unit :=
  modify (λ s, set_handlers (alter init_true h (handlers s)) s).

Definition set_closed (h : loc) : M unit :=
  modify (λ s, set_handlers (alter closed_true h (handlers s)) s).

(** [seqCallback.Cleanup], [monitorHandler.Cleanup], [streamHandler.Cleanup]. *)
Definition Cleanup (h : loc) : M unit :=
  emit (CallCleanup h);;
  o ← load h;
  match o with
  | seqCallback _ _ => ret tt
  | monitorHandler closed init initCh logCh _ =>
      when (negb closed)
        (when (negb init)
           (set_init h;;
            chan_send initCh (VErr (Some (Errorf "Stream closed"))));;
         chan_close logCh;;
         set_closed h)
  | streamHandler closed init initCh eventCh _ =>
      when (negb closed)
        (when (negb init)
           (set_init h;;
            chan_send initCh (VErr (Some (Errorf "Stream closed"))));;
         chan_close eventCh;;
         set_closed h)
  end.

(** [deregisterHandler]: the lookup and the delete are made under the
    lock, [Cleanup] after it is released. *)
Definition deregisterHandler (seq : Z) : M unit :=
  lock;;
  seqH ← gets (λ s, dispatch s !! seq);
  emit (MapGet seq);;
  modify (λ s, set_dispatch (delete seq (dispatch s)) s);;
  emit (MapDelete seq);;
  unlock;;
  match seqH with
  | Some h => Cleanup h
  | None => ret tt
  end.

(** [deregisterAll]: the unlock is deferred, so the loop over the table and
    the replacement of the table run with the lock held.  Go ranges over a
    map in no fixed order; the order of [map_to_list] stands for it. *)
Definition deregisterAll : M unit :=
  lock;;
  hs ← gets (λ s, (map_to_list (dispatch s)).*2);
  emit MapRange;;
  for_each Cleanup hs;;
  modify (set_dispatch ∅);;
  emit MapNew;;
  unlock.

(** [handleSeq]. *)
Definition handleSeq (seq : Z) (handler : loc) : M unit :=
  lock;;
  modify (λ s, set_dispatch (<[seq := handler]> (dispatch s)) s);;
  emit (MapSet seq);;
  unlock.

Definition log_err (prefix : string) (err : error) : M unit :=
  emit (Log (prefix +:+ Error err)).

(** [seqCallback.Handle] (the closure of [genericRPC]),
    [monitorHandler.Handle] and [streamHandler.Handle]. *)
Definition Handle (h : loc) (resp : responseHeader) : M unit :=
  emit (CallHandle h);;
  o ← load h;
  match o with
  | seqCallback errCh dst =>
      match dst with
      | Some cell =>
          d ← gets (λ s, cells s !! cell);
          match d with
          | None => panic "invalid memory address or nil pointer dereference"
          | Some d =>
              r ← Decode (as_payload d);
              match r with
              | inr err => chan_send errCh (VErr (Some err))
              | inl p =>
                  modify (λ s, set_cells (<[cell := p]> (cells s)) s);;
                  chan_send errCh (VErr (strToError (RError resp)))
              end
          end
      | None => chan_send errCh (VErr (strToError (RError resp)))
      end
  | monitorHandler _ init initCh logCh seq =>
      if negb init then
        set_init h;;
        chan_send initCh (VErr (strToError (RError resp)))
      else
        r ← Decode as_log;
        match r with
        | inr err =>
            log_err "[ERR] Failed to decode log: " err;;
            deregisterHandler seq
        | inl l =>
            delivered ← select_send logCh (VLog l);
            when (negb delivered)
              (emit (Log (fmt.Sprintf "[ERR] Dropping log! Monitor channel full")))
        end
  | streamHandler _ init initCh eventCh seq =>
      if negb init then
        set_init h;;
        chan_send initCh (VErr (strToError (RError resp)))
      else
        r ← Decode as_record;
        match r with
        | inr err =>
            log_err "[ERR] Failed to decode stream record: " err;;
            deregisterHandler seq
        | inl rec =>
            delivered ← select_send eventCh (VRecord rec);
            when (negb delivered)
              (emit (Log (fmt.Sprintf "[ERR] Dropping event! Stream channel full")))
        end
  end.

(** [respondSeq]: the lookup under the lock, [Handle] outside it; a
    sequence number without a handler is ignored. *)
Definition respondSeq (seq : Z) (respHeader : responseHeader) : M unit :=
  lock;;
  seqL ← gets (λ s, dispatch s !! seq);
  emit (MapGet seq);;
  unlock;;
  match seqL with
  | Some h => Handle h respHeader
  | None => ret tt
  end.

(** [send]; the whole body runs under [writeLock]. *)
Definition send (header : requestHeader) (obj : option request) : M (option error) :=
  stop ← gets shutdown;
  if stop then ret (Some clientClosed)
  else
    e ← Encode (OHeader header);
    match e with
    | Some err => ret (Some err)
    | None =>
        e ← match obj with
            | Some o => Encode (OBody o)
            | None => ret None
            end;
        match e with
        | Some err => ret (Some err)
        | None =>
            e ← Flush;
            match e with
            | Some err => ret (Some err)
            | None => emit (Flushed header);; ret None
            end
        end
    end.

(** [Close]; the whole body runs under [shutdownLock]. *)
Definition close_shutdownCh : M unit := λ s,
  if shutdownCh s then Panic "close of closed channel" s
  else Ok tt (set_shutdownCh true s).

Definition Close : M (option error) :=
  stop ← gets shutdown;
  if negb stop then
    modify (set_shutdown true);;
    close_shutdownCh;;
    deregisterAll;;
    modify (set_conn true);;
    ret None
  else ret None.

(** One turn of the loop of [listen]: [false] when the loop breaks. *)
Definition listen_iter : M bool :=
  r ← Decode as_header;
  match r with
  | inr err =>
      stop ← gets shutdown;
      when (negb stop)
        (log_err "[ERR] agent.client: Failed to decode response header: " err);;
      ret false
  | inl respHeader =>
      respondSeq (RSeq respHeader) respHeader;;
      ret true
  end.

Fixpoint listen_loop (fuel : nat) : M unit :=
  match fuel with
  | O => @park unit
  | S fuel =>
      continue ← listen_iter;
      if continue then listen_loop fuel else ret tt
  end.

(** [listen]: the loop, then the deferred [Close].  Every turn reads a
    record, so the loop ends within one turn more than the input is long. *)
Definition listen : M unit :=
  n ← gets (λ s, length (dec s));
  listen_loop (S n);;
  modify (set_listening false);;
  Close;;
  ret tt.

(** ** The other goroutines

    While a caller waits, the goroutine of [listen], the consumers of the
    delivery channels, the network and other callers of [Close] go on.  A
    schedule lists what they do during the wait, and which case a [select]
    takes when both can proceed. *)
Inductive env_step :=
  | Turn
  | CloseCall
  | NetDown (e : error)
  | Receive (ch : loc)
  | ParkReceiver (ch : loc).

Record sched := mkSched { during : list env_step; first : bool }.

(** The goroutine started by [go client.listen()] makes one turn of its
    loop; when the loop breaks it runs the deferred [Close] and is gone. *)
Definition listener_turn : M unit :=
  on ← gets listening;
  when on
    (continue ← listen_iter;
     when (negb continue) (modify (set_listening false);; Close;; ret tt)).

(** A consumer parks on an empty open channel. *)
Definition park_receiver (ch : loc) : M unit :=
  modify (λ s, match chans s !! ch with
               | Some c =>
                   match buf c, closed c with
                   | [], false =>
                       set_chans (<[ch := mkChan [] (cap c) (S (recvq c)) false (sent c)]> (chans s)) s
                   | _, _ => s
                   end
               | None => s
               end).

Definition env_run (e : env_step) : M unit :=
  match e with
  | Turn => listener_turn
  | CloseCall => Close;; ret tt
  | NetDown err => modify (set_netdown (Some err))
  | Receive ch => take ch
  | ParkReceiver ch => park_receiver ch
  end.

Definition run_env (es : list env_step) : M unit := for_each env_run es.

(** ** Calls *)

(** [genericRPC]: the deferred [deregisterHandler] runs on both returns. *)
Definition genericRPC (header : requestHeader) (req : option request)
    (resp : option loc) (sc : sched) : M (option error) :=
  errCh ← make_chan 1;
  handler ← new_handler (seqCallback errCh resp);
  handleSeq (Seq header) handler;;
  e ← send header req;
  match e with
  | Some err =>
      deregisterHandler (Seq header);;
      ret (Some err)
  | None =>
      run_env (during sc);;
      r ← select_wait errCh (first sc);
      deregisterHandler (Seq header);;
      ret (match r with
           | Some err => err
           | None => Some clientClosed
           end)
  end.

Definition ForceLeave (node : string) (sc : sched) : M (option error) :=
  seq ← getSeq;
  genericRPC (mkRequestHeader forceLeaveCommand seq) (Some (forceLeaveRequest node)) None sc.

Definition Join (addrs : list string) (replay : bool) (sc : sched) : M (Z * option error) :=
  seq ← getSeq;
  resp ← new_cell (joinResponse 0);
  err ← genericRPC (mkRequestHeader joinCommand seq) (Some (joinRequest addrs replay)) (Some resp) sc;
  p ← gets (λ s, cells s !! resp);
  ret (match p with Some (joinResponse n) => n | _ => 0 end, err).

Definition Members (sc : sched) : M (list Member * option error) :=
  seq ← getSeq;
  resp ← new_cell (membersResponse []);
  err ← genericRPC (mkRequestHeader membersCommand seq) None (Some resp) sc;
  p ← gets (λ s, cells s !! resp);
  ret (match p with Some (membersResponse ms) => ms | _ => [] end, err).

Definition MembersFiltered (tags : list (string * string)) (status : string)
    (sc : sched) : M (list Member * option error) :=
  seq ← getSeq;
  resp ← new_cell (membersResponse []);
  err ← genericRPC (mkRequestHeader membersFilteredCommand seq)
          (Some (membersRequest tags status)) (Some resp) sc;
  p ← gets (λ s, cells s !! resp);
  ret (match p with Some (membersResponse ms) => ms | _ => [] end, err).

Definition UserEvent (name : string) (payload : list ascii) (coalesce : bool)
    (sc : sched) : M (option error) :=
  seq ← getSeq;
  genericRPC (mkRequestHeader eventCommand seq) (Some (eventRequest name payload coalesce)) None sc.

Definition Leave (sc : sched) : M (option error) :=
  seq ← getSeq;
  genericRPC (mkRequestHeader leaveCommand seq) None None sc.

Definition UpdateTags (tags : list (string * string)) (delTags : list string)
    (sc : sched) : M (option error) :=
  seq ← getSeq;
  genericRPC (mkRequestHeader tagsCommand seq) (Some (tagsRequest tags delTags)) None sc.

Definition StreamHandle := Z.

(** [Monitor]: [ch] is the caller's channel of log lines. *)
Definition Monitor (level : string) (ch : loc) (sc : sched) : M (StreamHandle * option error) :=
  seq ← getSeq;
  initCh ← make_chan 1;
  handler ← new_handler (monitorHandler false false initCh ch seq);
  handleSeq seq handler;;
  e ← send (mkRequestHeader monitorCommand seq) (Some (monitorRequest level));
  match e with
  | Some err =>
      deregisterHandler seq;;
      ret (0, Some err)
  | None =>
      run_env (during sc);;
      r ← select_wait initCh (first sc);
      match r with
      | Some err => ret (seq, err)
      | None =>
          deregisterHandler seq;;
          ret (0, Some clientClosed)
      end
  end.

(** [Stream]: [ch] is the caller's channel of events. *)
Definition Stream (filter : string) (ch : loc) (sc : sched) : M (StreamHandle * option error) :=
  seq ← getSeq;
  initCh ← make_chan 1;
  handler ← new_handler (streamHandler false false initCh ch seq);
  handleSeq seq handler;;
  e ← send (mkRequestHeader streamCommand seq) (Some (streamRequest filter));
  match e with
  | Some err =>
      deregisterHandler seq;;
      ret (0, Some err)
  | None =>
      run_env (during sc);;
      r ← select_wait initCh (first sc);
      match r with
      | Some err => ret (seq, err)
      | None =>
          deregisterHandler seq;;
          ret (0, Some clientClosed)
      end
  end.

(** [Stop]. *)
Definition Stop (handle : StreamHandle) (sc : sched) : M (option error) :=
  deregisterHandler handle;;
  seq ← getSeq;
  genericRPC (mkRequestHeader stopCommand seq) (Some (stopRequest handle)) None sc.

(** [handshake]; the constant [maxIPCVersion] is declared outside
    [rpc_client.go] and is taken as a parameter. *)
Definition handshake (maxIPCVersion : Z) (sc : sched) : M (option error) :=
  seq ← getSeq;
  genericRPC (mkRequestHeader handshakeCommand seq) (Some (handshakeRequest maxIPCVersion)) None sc.

(** The composite literal of [NewRPCClient]: a client with counter 0, an
    empty table, an open shutdown channel and an open connection. *)
Definition new_client (s : state) : state :=
  set_seq 0 (set_dispatch ∅ (set_dispatchLock false (set_shutdown false
    (set_shutdownCh false (set_conn false (set_wbuf [] (set_werr None s))))))).

Inductive ref := client.

(** [NewRPCClient]: [dial] is what [net.Dial] returned.  The result is the
    client pointer ([None] for nil) and the error. *)
Definition NewRPCClient (dial : option error) (maxIPCVersion : Z) (sc : sched)
    : M (option ref * option error) :=
  match dial with
  | Some err => ret (None, Some err)
  | None =>
      modify new_client;;
      modify (set_listening true);;
      e ← handshake maxIPCVersion sc;
      match e with
      | Some err =>
          Close;;
          ret (None, Some err)
      | None => ret (Some client, None)
      end
  end.

(** A world in which nothing has happened yet: the agent will send [input]. *)
Definition world (input : list wire_item) : state :=
  mkState 0 ∅ false false false true input [] [] None None ∅ ∅ ∅ 1%positive false [].

(** ** Vocabulary of the statements *)

(** The two streaming handlers differ in the record they decode and in the
    text of their warning. *)
Inductive kind := monitor | stream.

Definition streaming (k : kind) (closed init : bool) (initCh dataCh : loc) (q : Z) : seqHandler :=
  match k with
  | monitor => monitorHandler closed init initCh dataCh q
  | stream => streamHandler closed init initCh dataCh q
  end.

(** The value a streaming handler delivers for a record of the input. *)
Definition delivery (k : kind) (it : wire_item) : option value :=
  match k with
  | monitor => VLog <$> as_log it
  | stream => VRecord <$> as_record it
  end.

Definition drop_warning (k : kind) : string :=
  match k with
  | monitor => "[ERR] Dropping log! Monitor channel full"
  | stream => "[ERR] Dropping event! Stream channel full"
  end.

Definition decode_warning (k : kind) : string :=
  match k with
  | monitor => "[ERR] Failed to decode log: "
  | stream => "[ERR] Failed to decode stream record: "
  end.

(** Lock discipline of a trace, read from left to right with [held] the
    state of the dispatch lock: every [Handle] and [Cleanup] is invoked
    while the lock is free, and the table is not ranged over under it. *)
Fixpoint outside_lock (held : bool) (t : list event) : bool :=
  match t with
  | [] => true
  | Lock :: t => outside_lock true t
  | Unlock :: t => outside_lock false t
  | CallHandle _ :: t | CallCleanup _ :: t | MapRange :: t =>
      negb held && outside_lock held t
  | _ :: t => outside_lock held t
  end.

(** [m] run [n] times. *)
Fixpoint times (n : nat) (m : M unit) : M unit :=
  match n with
  | O => ret tt
  | S n => m;; times n m
  end.


(** A handler whose [Cleanup] has nothing left to do. *)
Definition cleaned (o : seqHandler) : bool :=
  match o with
  | seqCallback _ _ => true
  | monitorHandler c _ _ _ _ | streamHandler c _ _ _ _ => c
  end.

(** [Q] holds of the result of running [m] from [s]. *)
Definition wp {A} (m : M A) (s : state) (Q : result A → Prop) : Prop := Q (m s).

(** A postcondition on the three ways a run ends. *)
Definition post {A} (Pok : A → state → Prop) (Pbad : state → Prop) (r : result A) : Prop :=
  match r with
  | Ok a s => Pok a s
  | Panic _ s | Blocked s => Pbad s
  end.

(** [m] keeps [I] whatever way it ends. *)
Definition keeps (I : state → Prop) {A} (m : M A) : Prop :=
  ∀ s, I s → wp m s (post (λ _, I) I).

(** What the primitives do to the state, as a relation: [I] is kept by every
    function as soon as it is kept by these steps. *)
Inductive prim_step : state → state → Prop :=
  | step_emit s e : prim_step s (set_trace (trace s ++ [e]) s)
  | step_lock s b : prim_step s (set_dispatchLock b s)
  | step_dec s d : prim_step s (set_dec d s)
  | step_cells s c : prim_step s (set_cells c s)
  | step_wbuf s b : prim_step s (set_wbuf b s)
  | step_wire s w : prim_step s (set_wire w s)
  | step_werr s e : prim_step s (set_werr e s)
  | step_netdown s e : prim_step s (set_netdown (Some e) s)
  | step_listening s : prim_step s (set_listening false s)
  | step_shutdown s : prim_step s (set_shutdown true s)
  | step_shutdownCh s : prim_step s (set_shutdownCh true s)
  | step_conn s : prim_step s (set_conn true s)
  | step_alter s f h : prim_step s (set_handlers (alter f h (handlers s)) s)
  | step_new_handler s o :
      prim_step s (set_next (Pos.succ (next s)) (set_handlers (<[next s := o]> (handlers s)) s))
  | step_new_cell s p :
      prim_step s (set_next (Pos.succ (next s)) (set_cells (<[next s := p]> (cells s)) s))
  | step_make_chan s n :
      prim_step s (set_next (Pos.succ (next s)) (set_chans (<[next s := make n]> (chans s)) s))
  | step_push s ch c v :
      chans s !! ch = Some c → closed c = false →
      prim_step s (set_chans (<[ch := push v c]> (chans s)) s)
  | step_close s ch c :
      chans s !! ch = Some c → closed c = false →
      prim_step s (set_chans (<[ch := close_chan c]> (chans s)) s)
  | step_take s ch c :
      chans s !! ch = Some c →
      prim_step s (set_chans (<[ch := mkChan (tail (buf c)) (cap c) (recvq c) (closed c) (sent c)]> (chans s)) s)
  | step_park s ch c :
      chans s !! ch = Some c → closed c = false →
      prim_step s (set_chans (<[ch := mkChan [] (cap c) (S (recvq c)) false (sent c)]> (chans s)) s)
  | step_delete s q : prim_step s (set_dispatch (delete q (dispatch s)) s)
  | step_reset s : prim_step s (set_dispatch ∅ s).

Definition stable (I : state → Prop) : Prop := ∀ s s', prim_step s s' → I s → I s'.


(** ** Example states *)

(** A client with one monitor subscription registered under 2 and still
    waiting for its setup response: handler object 3, init channel 2,
    delivery channel 1 (of capacity 4). *)
Definition awaiting_init : state :=
  mkState 2 {[ 2 := 3%positive ]} false false false false [] [] [] None None
    {[ 3%positive := monitorHandler false false 2%positive 1%positive 2 ]}
    {[ 1%positive := make 4; 2%positive := make 1 ]} ∅ 4%positive true [].


(** A monitor subscription that is streaming: handler object 3 under 2,
    delivery channel 1 of capacity 1 already holding a line. *)
Definition streaming_full : state :=
  mkState 2 {[ 2 := 3%positive ]} false false false false
    [WLog "line two"] [] [] None None
    {[ 3%positive := monitorHandler false true 2%positive 1%positive 2 ]}
    {[ 1%positive := mkChan [VLog "line one"] 1 0 false [VLog "line one"];
       2%positive := mkChan [] 1 0 false [VErr None] ]}
    ∅ 4%positive true [].
(** ** Reasoning about runs *)


Lemma wp_bind {A B} (m : M A) (k : A → M B) s Q :
  wp m s (λ r, match r with
               | Ok a s' => wp (k a) s' Q
               | Panic msg s' => Q (Panic msg s')
               | Blocked s' => Q (Blocked s')
               end) →
  wp (bind m k) s Q.
Proof. unfold wp, bind. destruct (m s); auto. Qed.

Lemma wp_intro {A} (m : M A) s (Q : result A → Prop) : wp m s Q → Q (m s).
Proof. exact id. Qed.

(** Projections of updated states; [norm] brings every state of the goal to
    the form [mkState ...]. *)
Ltac flds :=
  cbn [seq dispatch dispatchLock shutdown shutdownCh conn dec wbuf wire werr netdown
       handlers chans cells next listening trace
       set_seq set_dispatch set_dispatchLock set_shutdown set_shutdownCh set_conn set_dec
       set_wbuf set_wire set_werr set_netdown set_handlers set_chans set_cells set_next
       set_listening set_trace final].

Ltac norm :=
  cbv beta delta
      [set_seq set_dispatch set_dispatchLock set_shutdown set_shutdownCh set_conn set_dec
       set_wbuf set_wire set_werr set_netdown set_handlers set_chans set_cells set_next
       set_listening set_trace];
  cbn [seq dispatch dispatchLock shutdown shutdownCh conn dec wbuf wire werr netdown
       handlers chans cells next listening trace final].

Ltac look :=
  repeat first
    [ rewrite lookup_insert_eq
    | rewrite lookup_insert_ne by (done || lia)
    | rewrite lookup_delete_eq
    | rewrite lookup_delete_ne by (done || lia)
    | rewrite lookup_alter_eq
    | rewrite lookup_alter_ne by (done || lia)
    | rewrite lookup_empty ].

Ltac known :=
  repeat match goal with
         | H : ?l = _ |- context [match ?l with _ => _ end] => rewrite H
         end.

Lemma push_make v n : push v (make n) = mkChan [v] n 0 false [v].
Proof. reflexivity. Qed.

Ltac settle :=
  norm; look; known;
  rewrite ?push_make;
  cbn [fmap option_fmap option_map buf cap recvq closed sent make tail];
  try change (can_send (make 1)) with true;
  lazy beta iota.

(** One primitive, run on the current state. *)
Ltac run_prim :=
  lazymatch goal with
  | |- wp ?m ?s ?Q =>
      let q := fresh "Q" in
      set (q := Q); unfold wp;
      cbv beta iota zeta delta
        [bind ret gets modify emit panic park load set_init set_closed chan_send
         select_send chan_close make_chan new_handler new_cell lock unlock getSeq
         Decode Encode Flush close_shutdownCh take park_receiver log_err select_wait
         recv_ready as_header as_log as_record];
      subst q; settle
  end.

(** The body of a function of the source. *)
Ltac head_of m :=
  lazymatch m with
  | ?f _ => head_of f
  | _ => m
  end.

Ltac is_fn h :=
  lazymatch h with
  | Cleanup => idtac | deregisterHandler => idtac | deregisterAll => idtac
  | handleSeq => idtac | Handle => idtac | respondSeq => idtac | send => idtac
  | Close => idtac | listen_iter => idtac | listener_turn => idtac | env_run => idtac
  | run_env => idtac | genericRPC => idtac | Monitor => idtac | Stream => idtac
  | Stop => idtac | handshake => idtac | NewRPCClient => idtac | ForceLeave => idtac
  | Join => idtac | Members => idtac | MembersFiltered => idtac | UserEvent => idtac
  | Leave => idtac | UpdateTags => idtac
  end.

Ltac open_fn :=
  lazymatch goal with
  | |- wp ?m ?s ?Q =>
      let h := head_of m in
      is_fn h;
      let m' := eval unfold h in m in
      let m' := eval cbv beta in m' in
      change (wp m' s Q)
  end.

Ltac wp_step :=
  lazymatch goal with
  | |- wp (bind _ _) _ _ => apply wp_bind
  | |- wp (when true _) _ _ => unfold when at 1
  | |- wp (when false _) _ _ => unfold wp at 1, when at 1, ret at 1; lazy beta iota
  | |- wp (when ?b _) _ _ =>
      lazymatch goal with
      | H : b = _ |- _ => rewrite H
      | _ => fail "when: condition unknown"
      end
  | |- wp (match ?x with _ => _ end) _ _ =>
      lazymatch goal with
      | H : x = _ |- _ => rewrite H
      | _ => fail "match: scrutinee unknown"
      end
  | |- wp (for_each _ (_ :: _)) _ _ => cbn [for_each]
  | |- wp (for_each _ []) _ _ =>
      unfold wp at 1; cbn [for_each]; unfold ret at 1; lazy beta iota
  | |- wp (for_each _ _) _ _ => fail "for_each: list unknown"
  | |- wp _ _ _ => first [open_fn | run_prim]
  end.

Ltac wp_run :=
  repeat (wp_step; cbn [negb andb orb streaming during first RSeq RError Seq Command]).

(** Case analysis on whatever a run is stuck on. *)
Ltac wp_case :=
  match goal with
  | |- context [match ?x with _ => _ end] =>
      lazymatch x with
      | context [match _ with _ => _ end] => fail
      | _ => destruct x eqn:?
      end
  | |- wp (when ?b _) _ _ => destruct b eqn:?
  end.

Ltac wp_all := repeat (wp_run; try (wp_case; settle)).

Lemma alter_Some {K A} `{Countable K} (f : A → A) (m : gmap K A) i x :
  m !! i = Some x → alter f i m = <[i := f x]> m.
Proof.
  intros Hi. apply map_eq. intros j. destruct (decide (i = j)) as [->|].
  - by rewrite lookup_alter_eq, lookup_insert_eq, Hi.
  - by rewrite lookup_alter_ne, lookup_insert_ne.
Qed.

(** ** The formatter on examples *)

Example Sprintf_plain : fmt.Sprintf "client closed" = "client closed".
Proof. reflexivity. Qed.

Example Sprintf_noverb : fmt.Sprintf "disk 100%" = "disk 100%!(NOVERB)".
Proof. reflexivity. Qed.

Example Sprintf_missing : fmt.Sprintf "load %d of %5.2f%%" = "load %!d(MISSING) of %!f(MISSING)%".
Proof. reflexivity. Qed.

Example Sprintf_badindex : fmt.Sprintf "%[1]d" = "%!d(BADINDEX)".
Proof. reflexivity. Qed.


(** ** [Cleanup] *)

Lemma Cleanup_cleaned h o s :
  handlers s !! h = Some o → cleaned o = true →
  Cleanup h s = Ok tt (set_trace (trace s ++ [CallCleanup h]) s).
Proof.
  intros Hh Hc. apply (wp_intro (Cleanup h) s (λ r, r = _)).
  destruct o; cbn [cleaned] in Hc; subst; wp_run; reflexivity.
Qed.

Lemma times_Cleanup_cleaned h o n : ∀ s,
  handlers s !! h = Some o → cleaned o = true →
  ∃ s', times n (Cleanup h) s = Ok tt s' ∧ handlers s' = handlers s ∧ chans s' = chans s.
Proof.
  induction n as [|n IH]; intros s Hh Hc.
  - exists s. done.
  - cbn [times]. unfold bind. rewrite (Cleanup_cleaned _ _ _ Hh Hc).
    destruct (IH (set_trace (trace s ++ [CallCleanup h]) s)) as (s' & -> & ? & ?); [done..|].
    exists s'. done.
Qed.

(** C6: on a streaming handler that is not closed, with its delivery channel
    open, [Cleanup] returns, marks the handler closed, closes the delivery
    channel, and puts the "Stream closed" failure on the init channel exactly
    when setup had not completed ([init = false]); any number of further
    invocations return and leave the handler objects and the channels as the
    first one left them. *)
Theorem Cleanup_idempotent k init initCh dataCh q h s c ci :
  handlers s !! h = Some (streaming k false init initCh dataCh q) →
  initCh ≠ dataCh →
  chans s !! dataCh = Some c → closed c = false →
  chans s !! initCh = Some ci → closed ci = false →
  (init = false → can_send ci = true) →
  ∃ s1,
    Cleanup h s = Ok tt s1
    ∧ handlers s1 !! h = Some (streaming k true true initCh dataCh q)
    ∧ chans s1 !! dataCh = Some (close_chan c)
    ∧ chans s1 !! initCh
      = Some (if init then ci else push (VErr (Some (mkError "Stream closed"))) ci)
    ∧ ∀ n, ∃ sn, times n (Cleanup h) s1 = Ok tt sn
                 ∧ handlers sn = handlers s1 ∧ chans sn = chans s1.
Proof.
  intros Hh Hne Hd Hc Hi Hci Hsend.
  apply (wp_intro (Cleanup h) s (λ r, ∃ s1, r = Ok tt s1 ∧ _)).
  destruct k, init; cbn [streaming] in Hh; try specialize (Hsend eq_refl); wp_run.
  all: eexists; split; [reflexivity|]; flds; look; rewrite ?Hh, ?Hd, ?Hi.
  all: repeat split; try done.
  all: intros n; eapply times_Cleanup_cleaned; [flds; look; rewrite ?Hh; reflexivity|done].
Qed.

Lemma Cleanup_idempotent_witness :
  ∃ s1, Cleanup 3%positive awaiting_init = Ok tt s1
    ∧ handlers s1 !! 3%positive = Some (streaming monitor true true 2%positive 1%positive 2)
    ∧ chans s1 !! 1%positive = Some (close_chan (make 4))
    ∧ chans s1 !! 2%positive = Some (push (VErr (Some (mkError "Stream closed"))) (make 1))
    ∧ ∀ n, ∃ sn, times n (Cleanup 3%positive) s1 = Ok tt sn
                 ∧ handlers sn = handlers s1 ∧ chans sn = chans s1.
Proof.
  apply (Cleanup_idempotent monitor false 2%positive 1%positive 2 3%positive
           awaiting_init (make 4) (make 1)); vm_compute; done.
Defined.

(** ** [Handle] of the streaming handlers *)

(** C5: for a monitor or stream handler, a [Handle] with [init = false]
    returns, sets [init], puts the converted setup error string on the init
    channel and reads nothing from the input; a [Handle] with [init = true]
    whose record decodes returns, has read exactly that one record, and has
    made a non-blocking send: the value is pushed when the delivery channel
    can take it, and otherwise the channels are untouched, the warning is
    logged, and nothing else changes (no handler object, no table entry). *)
Theorem Handle_streaming k hc initCh dataCh q h resp :
  (∀ s ci,
     handlers s !! h = Some (streaming k hc false initCh dataCh q) →
     chans s !! initCh = Some ci → closed ci = false → can_send ci = true →
     ∃ s1, Handle h resp s = Ok tt s1
       ∧ handlers s1 = <[h := streaming k hc true initCh dataCh q]> (handlers s)
       ∧ chans s1 = <[initCh := push (VErr (strToError (RError resp))) ci]> (chans s)
       ∧ dec s1 = dec s)
  ∧ (∀ s it rest v c,
     handlers s !! h = Some (streaming k hc true initCh dataCh q) →
     dec s = it :: rest → delivery k it = Some v →
     chans s !! dataCh = Some c → closed c = false →
     ∃ s1, Handle h resp s = Ok tt s1
       ∧ dec s1 = rest
       ∧ handlers s1 = handlers s ∧ dispatch s1 = dispatch s
       ∧ if can_send c
         then chans s1 = <[dataCh := push v c]> (chans s)
              ∧ trace s1 = trace s ++ [CallHandle h]
         else chans s1 = chans s
              ∧ trace s1 = trace s ++ [CallHandle h; Log (drop_warning k)]).
Proof.
  split.
  - intros s ci Hh Hi Hci Hsend.
    apply (wp_intro (Handle h resp) s (λ r, ∃ s1, r = Ok tt s1 ∧ _)).
    destruct k; cbn [streaming] in Hh; wp_run.
    all: eexists; split; [reflexivity|]; flds.
    all: by rewrite (alter_Some _ _ _ _ Hh).
  - intros s it rest v c Hh Hdec Hv Hc Hcl.
    apply (wp_intro (Handle h resp) s (λ r, ∃ s1, r = Ok tt s1 ∧ _)).
    destruct k; cbn [streaming delivery] in Hh, Hv; wp_run.
    all: destruct it; try discriminate Hv; injection Hv as <-; cbn [as_log as_record]; settle.
    all: wp_run; destruct (can_send c) eqn:Hs; wp_run.
    all: eexists; split; [reflexivity|]; flds; repeat split; try done.
    all: by rewrite <- app_assoc.
Qed.

Lemma Handle_streaming_witness :
  (∃ s1, Handle 3%positive (mkResponseHeader 2 "") awaiting_init = Ok tt s1
     ∧ handlers s1 = <[3%positive := streaming monitor false true 2%positive 1%positive 2]>
                       (handlers awaiting_init)
     ∧ chans s1 = <[2%positive := push (VErr (strToError "")) (make 1)]> (chans awaiting_init)
     ∧ dec s1 = dec awaiting_init)
  ∧ (∃ s1, Handle 3%positive (mkResponseHeader 2 "") streaming_full = Ok tt s1
     ∧ dec s1 = []
     ∧ handlers s1 = handlers streaming_full ∧ dispatch s1 = dispatch streaming_full
     ∧ chans s1 = chans streaming_full
     ∧ trace s1 = trace streaming_full ++ [CallHandle 3%positive; Log (drop_warning monitor)]).
Proof.
  destruct (Handle_streaming monitor false 2%positive 1%positive 2 3%positive
              (mkResponseHeader 2 "")) as [Hfirst Hnext].
  split.
  - apply (Hfirst awaiting_init (make 1)); reflexivity.
  - destruct (Hnext streaming_full (WLog "line two") [] (VLog "line two")
                (mkChan [VLog "line one"] 1 0 false [VLog "line one"]))
      as (s1 & H1 & H2 & H3 & H4 & H5); try reflexivity.
    exists s1. cbn in H5. tauto.
Defined.

(** ** The handler of [genericRPC] *)



(** ** Invariants kept by every function *)

Lemma wp_seq {A} (m : M A) s Pok Pbad (Q : result A → Prop) :
  wp m s (post Pok Pbad) →
  (∀ a s', Pok a s' → Q (Ok a s')) →
  (∀ msg s', Pbad s' → Q (Panic msg s')) →
  (∀ s', Pbad s' → Q (Blocked s')) →
  wp m s Q.
Proof. unfold wp, post. destruct (m s); auto. Qed.

Lemma keeps_bind I {A B} (m : M A) (k : A → M B) :
  keeps I m → (∀ a, keeps I (k a)) → keeps I (bind m k).
Proof.
  intros Hm Hk s Hs. apply wp_bind. eapply wp_seq; [apply Hm, Hs|..]; cbn [post]; auto.
Qed.

Lemma keeps_ret I {A} (a : A) : keeps I (ret a).
Proof. intros s Hs. exact Hs. Qed.

Lemma keeps_when I b m : keeps I m → keeps I (when b m).
Proof. destruct b; [done|]. intros _. apply keeps_ret. Qed.

Lemma keeps_for_each I {A} (f : A → M unit) l :
  (∀ x, keeps I (f x)) → keeps I (for_each f l).
Proof.
  intros Hf. induction l as [|x l IH]; cbn [for_each]; [apply keeps_ret|].
  apply keeps_bind; auto.
Qed.

Lemma keeps_gets I {A} (f : state → A) : keeps I (gets f).
Proof. intros s Hs. exact Hs. Qed.

Lemma keeps_panic I {A} msg : keeps I (@panic A msg).
Proof. intros s Hs. exact Hs. Qed.

Lemma keeps_park I {A} : keeps I (@park A).
Proof. intros s Hs. exact Hs. Qed.

Lemma keeps_modify I (f : state → state) : (∀ s, I s → I (f s)) → keeps I (modify f).
Proof. intros Hf s Hs. apply Hf, Hs. Qed.

Section Stable.
Variable I : state → Prop.
Hypothesis HI : stable I.

Ltac peel :=
  lazymatch goal with
  | H : I ?s |- I ?s => exact H
  | |- I (set_trace (_ ++ [?e]) ?s1) => apply (HI s1 _ (step_emit s1 e))
  | |- I (set_dispatchLock ?b ?s1) => apply (HI s1 _ (step_lock s1 b))
  | |- I (set_dec ?d ?s1) => apply (HI s1 _ (step_dec s1 d))
  | |- I (set_cells (<[next ?s1 := ?p]> _) _) => fail
  | |- I (set_cells ?c ?s1) => apply (HI s1 _ (step_cells s1 c))
  | |- I (set_wbuf ?b ?s1) => apply (HI s1 _ (step_wbuf s1 b))
  | |- I (set_wire ?w ?s1) => apply (HI s1 _ (step_wire s1 w))
  | |- I (set_werr ?e ?s1) => apply (HI s1 _ (step_werr s1 e))
  | |- I (set_netdown (Some ?e) ?s1) => apply (HI s1 _ (step_netdown s1 e))
  | |- I (set_listening false ?s1) => apply (HI s1 _ (step_listening s1))
  | |- I (set_shutdown true ?s1) => apply (HI s1 _ (step_shutdown s1))
  | |- I (set_shutdownCh true ?s1) => apply (HI s1 _ (step_shutdownCh s1))
  | |- I (set_conn true ?s1) => apply (HI s1 _ (step_conn s1))
  | |- I (set_handlers (alter ?f ?h _) ?s1) => apply (HI s1 _ (step_alter s1 f h))
  | |- I (set_next _ (set_handlers (<[_ := ?o]> _) ?s1)) =>
      apply (HI s1 _ (step_new_handler s1 o))
  | |- I (set_next _ (set_cells (<[_ := ?p]> _) ?s1)) =>
      apply (HI s1 _ (step_new_cell s1 p))
  | |- I (set_next _ (set_chans (<[_ := make ?n]> _) ?s1)) =>
      apply (HI s1 _ (step_make_chan s1 n))
  | |- I (set_chans (<[?ch := push ?v ?c]> _) ?s1) =>
      apply (HI s1 _ (step_push s1 ch c v ltac:(eassumption) ltac:(eassumption)))
  | |- I (set_chans (<[?ch := close_chan ?c]> _) ?s1) =>
      apply (HI s1 _ (step_close s1 ch c ltac:(eassumption) ltac:(eassumption)))
  | |- I (set_chans (<[?ch := mkChan (tail (buf ?c)) _ _ _ _]> _) ?s1) =>
      apply (HI s1 _ (step_take s1 ch c ltac:(eassumption)))
  | |- I (set_chans (<[?ch := mkChan [] (cap ?c) (S _) _ _]> _) ?s1) =>
      apply (HI s1 _ (step_park s1 ch c ltac:(eassumption) ltac:(eassumption)))
  | |- I (set_dispatch (delete ?q _) ?s1) => apply (HI s1 _ (step_delete s1 q))
  | |- I (set_dispatch ∅ ?s1) => apply (HI s1 _ (step_reset s1))
  end.

Ltac by_step := intros ? ?; unfold wp, post;
  cbv beta iota zeta delta [bind ret gets modify emit panic park load set_init set_closed chan_send
       select_send chan_close make_chan new_handler new_cell lock unlock
       Decode Encode Flush close_shutdownCh take park_receiver log_err select_wait recv_ready];
  repeat case_match; simplify_eq; cbn [final]; repeat peel.

Lemma keeps_emit e : keeps I (emit e).
Proof. by_step. Qed.
Lemma keeps_lock : keeps I lock.
Proof. by_step. Qed.
Lemma keeps_unlock : keeps I unlock.
Proof. by_step. Qed.
Lemma keeps_load h : keeps I (load h).
Proof. by_step. Qed.
Lemma keeps_set_init h : keeps I (set_init h).
Proof. by_step. Qed.
Lemma keeps_set_closed h : keeps I (set_closed h).
Proof. by_step. Qed.
Lemma keeps_chan_send ch v : keeps I (chan_send ch v).
Proof. by_step. Qed.
Lemma keeps_select_send ch v : keeps I (select_send ch v).
Proof. by_step. Qed.
Lemma keeps_chan_close ch : keeps I (chan_close ch).
Proof. by_step. Qed.
Lemma keeps_make_chan n : keeps I (make_chan n).
Proof. by_step. Qed.
Lemma keeps_new_handler o : keeps I (new_handler o).
Proof. by_step. Qed.
Lemma keeps_new_cell p : keeps I (new_cell p).
Proof. by_step. Qed.
Lemma keeps_Decode {A} (shape : wire_item → option A) : keeps I (Decode shape).
Proof. by_step. Qed.
Lemma keeps_Encode x : keeps I (Encode x).
Proof. by_step. Qed.
Lemma keeps_Flush : keeps I Flush.
Proof. by_step. Qed.
Lemma keeps_close_shutdownCh : keeps I close_shutdownCh.
Proof. by_step. Qed.
Lemma keeps_take ch : keeps I (take ch).
Proof. by_step. Qed.
Lemma keeps_park_receiver ch : keeps I (park_receiver ch).
Proof. by_step. Qed.
Lemma keeps_log_err p e : keeps I (log_err p e).
Proof. by_step. Qed.
Lemma keeps_select_wait ch b : keeps I (select_wait ch b).
Proof.
  intros s Hs. unfold wp, select_wait.
  destruct (recv_ready ch s), (shutdownCh s), b; cbn [andb negb post]; trivial.
  all: apply (keeps_bind I (take ch)); [apply keeps_take|intros; apply keeps_ret|exact Hs].
Qed.

Ltac keeps_one :=
  lazymatch goal with
  | |- keeps _ (bind _ _) => apply keeps_bind
  | |- keeps _ (ret _) => apply keeps_ret
  | |- keeps _ (gets _) => apply keeps_gets
  | |- keeps _ (panic _) => apply keeps_panic
  | |- keeps _ park => apply keeps_park
  | |- keeps _ (when _ _) => apply keeps_when
  | |- keeps _ (for_each _ _) => apply keeps_for_each
  | |- keeps _ (emit _) => apply keeps_emit
  | |- keeps _ lock => apply keeps_lock
  | |- keeps _ unlock => apply keeps_unlock
  | |- keeps _ (load _) => apply keeps_load
  | |- keeps _ (set_init _) => apply keeps_set_init
  | |- keeps _ (set_closed _) => apply keeps_set_closed
  | |- keeps _ (chan_send _ _) => apply keeps_chan_send
  | |- keeps _ (select_send _ _) => apply keeps_select_send
  | |- keeps _ (chan_close _) => apply keeps_chan_close
  | |- keeps _ (make_chan _) => apply keeps_make_chan
  | |- keeps _ (new_handler _) => apply keeps_new_handler
  | |- keeps _ (new_cell _) => apply keeps_new_cell
  | |- keeps _ (Decode _) => apply keeps_Decode
  | |- keeps _ (Encode _) => apply keeps_Encode
  | |- keeps _ Flush => apply keeps_Flush
  | |- keeps _ close_shutdownCh => apply keeps_close_shutdownCh
  | |- keeps _ (take _) => apply keeps_take
  | |- keeps _ (park_receiver _) => apply keeps_park_receiver
  | |- keeps _ (log_err _ _) => apply keeps_log_err
  | |- keeps _ (select_wait _ _) => apply keeps_select_wait
  | |- keeps _ (modify _) => apply keeps_modify; intros ? ?; cbv beta; repeat peel
  | |- keeps _ (match ?x with _ => _ end) => destruct x
  | |- ∀ _, _ => intro
  end.

Ltac keeps_go := repeat keeps_one.

Lemma keeps_Cleanup h : keeps I (Cleanup h).
Proof. unfold Cleanup. keeps_go. Qed.

Lemma keeps_deregisterHandler q : keeps I (deregisterHandler q).
Proof. unfold deregisterHandler. keeps_go. all: apply keeps_Cleanup. Qed.

Lemma keeps_deregisterAll : keeps I deregisterAll.
Proof. unfold deregisterAll. keeps_go. all: apply keeps_Cleanup. Qed.

Lemma keeps_Handle h resp : keeps I (Handle h resp).
Proof. unfold Handle. keeps_go. all: apply keeps_deregisterHandler. Qed.

Lemma keeps_respondSeq q resp : keeps I (respondSeq q resp).
Proof. unfold respondSeq. keeps_go. all: apply keeps_Handle. Qed.

Lemma keeps_send header obj : keeps I (send header obj).
Proof. unfold send. keeps_go. Qed.

Lemma keeps_Close : keeps I Close.
Proof. unfold Close. keeps_go. all: apply keeps_deregisterAll. Qed.

Lemma keeps_listen_iter : keeps I listen_iter.
Proof. unfold listen_iter. keeps_go. all: apply keeps_respondSeq. Qed.

Lemma keeps_listen_loop n : keeps I (listen_loop n).
Proof. induction n; cbn [listen_loop]; keeps_go; [apply keeps_listen_iter|done]. Qed.

Lemma keeps_listen : keeps I listen.
Proof. unfold listen. keeps_go; [apply keeps_listen_loop|apply keeps_Close]. Qed.

Lemma keeps_listener_turn : keeps I listener_turn.
Proof. unfold listener_turn. keeps_go; [apply keeps_listen_iter|apply keeps_Close]. Qed.

Lemma keeps_env_run e : keeps I (env_run e).
Proof. unfold env_run. keeps_go; [apply keeps_listener_turn|apply keeps_Close]. Qed.

Lemma keeps_run_env es : keeps I (run_env es).
Proof. unfold run_env. keeps_go. apply keeps_env_run. Qed.
End Stable.

